(** * Tapir/LLVM: the TapirOpts library surface and the task pipeline

    Part I embeds [llvm/lib/Transforms/Tapir/Tapir.cpp]: the library
    initialiser [initializeTapirOpts] and the C bindings built on it.
    The heap of C++ objects the functions act on (pass registries, legacy
    pass managers, pass instances) is an explicit store, and the functions
    are computations in a state monad over it.

    Part II models, from the specification of the pipeline, the passes
    that Tapir.cpp registers but does not define, as far as the stated
    invariants of Task Analysis and of Lowering to Target need them.

    The properties follow the definitions: first those of the library
    surface, then those of the pipeline. *)

From Stdlib Require Import List.
From stdpp Require Import base option gmap list strings.

Module TapirOpts.

(** ** Passes of the library

    One constructor per pass [X] that Tapir.cpp names through
    [initializeXPass] or [createXPass]. *)
Inductive PassID : Set :=
| LoopSpawning
| LoopSpawningTI
| LowerTapirToTarget
| AnalyzeTapir
| TaskSimplify
| DRFScopedNoAliasWrapperPass
| LoopStripMine
| SerializeSmallTasks.

#[global] Instance PassID_eq_dec : EqDecision PassID.
Proof. solve_decision. Defined.

Definition PassID_index (P : PassID) : nat :=
  match P with
  | LoopSpawning => 0
  | LoopSpawningTI => 1
  | LowerTapirToTarget => 2
  | AnalyzeTapir => 3
  | TaskSimplify => 4
  | DRFScopedNoAliasWrapperPass => 5
  | LoopStripMine => 6
  | SerializeSmallTasks => 7
  end.

Definition PassID_of_index (n : nat) : option PassID :=
  match n with
  | 0 => Some LoopSpawning
  | 1 => Some LoopSpawningTI
  | 2 => Some LowerTapirToTarget
  | 3 => Some AnalyzeTapir
  | 4 => Some TaskSimplify
  | 5 => Some DRFScopedNoAliasWrapperPass
  | 6 => Some LoopStripMine
  | 7 => Some SerializeSmallTasks
  | _ => None
  end.

#[global] Instance PassID_countable : Countable PassID :=
  inj_countable PassID_index PassID_of_index
    (fun P => match P with
              | LoopSpawning | LoopSpawningTI | LowerTapirToTarget | AnalyzeTapir
              | TaskSimplify | DRFScopedNoAliasWrapperPass | LoopStripMine
              | SerializeSmallTasks => eq_refl
              end).

(** ** The object store

    [PassRegistry &], [legacy::PassManagerBase *] and [Pass *] are
    addresses of objects; the store maps each live address to the state
    of the object it holds.  A registry is the set of passes whose
    [PassInfo] it records, a pass manager is the sequence of pass
    instances added to it, in order, and a pass instance remembers
    which pass it is an instance of. *)
Definition addr := positive.

Record Heap := mkHeap {
  registries : gmap addr (gset PassID);
  managers : gmap addr (list addr);
  passObjects : gmap addr PassID
}.

(** A computation either yields a value and a new store, or has no
    defined behaviour ([None]): it went through an address that holds no
    object of the expected class. *)
Definition M (A : Type) : Type := Heap -> option (A * Heap).

#[global] Instance M_ret : MRet M := fun A a h => Some (a, h).

#[global] Instance M_bind : MBind M := fun A B k m h =>
  match m h with
  | Some (a, h') => k a h'
  | None => None
  end.

(** The C API hands objects out as opaque references
    ([struct LLVMOpaquePassRegistry *], [struct LLVMOpaquePassManager *]);
    [unwrap] casts a reference back to the address of the C++ object. *)
Inductive LLVMPassRegistryRef := LLVMOpaquePassRegistry (p : addr).
Inductive LLVMPassManagerRef := LLVMOpaquePassManager (p : addr).

Class Unwrap (Ref : Type) := unwrap : Ref -> addr.

#[global] Instance unwrap_PassRegistry : Unwrap LLVMPassRegistryRef :=
  fun R => match R with LLVMOpaquePassRegistry p => p end.

#[global] Instance unwrap_PassManager : Unwrap LLVMPassManagerRef :=
  fun PM => match PM with LLVMOpaquePassManager p => p end.

(** ** What Tapir.cpp calls but does not define *)

(** Modelled from the spec: the bodies of the eight [initializeXPass]
    functions, which the pass-definition macros generate in each pass's
    own file.  Section 4.9: a component "registers a stable name ... with
    the host's pass-management system"; section 9: the registry is "a
    mapping from stable names to ... tuples".  [registerPass P Registry]
    records pass [P] in the registry object at [Registry]. *)
Definition registerPass (P : PassID) (Registry : addr) : M unit := fun h =>
  reg ← registries h !! Registry;
  Some (tt, mkHeap (<[Registry := {[P]} ∪ reg]> (registries h))
                   (managers h) (passObjects h)).

Definition initializeLoopSpawningPass := registerPass LoopSpawning.
Definition initializeLoopSpawningTIPass := registerPass LoopSpawningTI.
Definition initializeLowerTapirToTargetPass := registerPass LowerTapirToTarget.
Definition initializeAnalyzeTapirPass := registerPass AnalyzeTapir.
Definition initializeTaskSimplifyPass := registerPass TaskSimplify.
Definition initializeDRFScopedNoAliasWrapperPassPass :=
  registerPass DRFScopedNoAliasWrapperPass.
Definition initializeLoopStripMinePass := registerPass LoopStripMine.
Definition initializeSerializeSmallTasksPass := registerPass SerializeSmallTasks.

(** Modelled from the spec: the factories [createXPass], defined in each
    pass's own file.  Section 6: "a factory producing one pass instance".
    [newPass P] allocates one new instance of [P] at an address that
    held no pass object and returns the address. *)
Definition newPass (P : PassID) : M addr := fun h =>
  let p := fresh (dom (passObjects h)) in
  Some (p, mkHeap (registries h) (managers h) (<[p := P]> (passObjects h))).

Definition createLowerTapirToTargetPass : M addr := newPass LowerTapirToTarget.
Definition createLoopSpawningTIPass : M addr := newPass LoopSpawningTI.

(** Modelled from the spec: [legacy::PassManagerBase::add], part of the
    host's pass manager.  Section 4.9: a driver can "add exactly one of
    these passes to a pipeline".  [add PM P] appends the instance at [P]
    to the pipeline of the manager at [PM]. *)
Definition add (PM : addr) (P : addr) : M unit := fun h =>
  pipeline ← managers h !! PM;
  Some (tt, mkHeap (registries h) (<[PM := pipeline ++ [P]]> (managers h))
                   (passObjects h)).

(** ** Tapir.cpp *)

(** initializeTapirOpts - Initialize all passes linked into the
    TapirOpts library. *)
Definition initializeTapirOpts (Registry : addr) : M unit :=
  initializeLoopSpawningPass Registry;;
  initializeLoopSpawningTIPass Registry;;
  initializeLowerTapirToTargetPass Registry;;
  initializeAnalyzeTapirPass Registry;;
  initializeTaskSimplifyPass Registry;;
  initializeDRFScopedNoAliasWrapperPassPass Registry;;
  initializeLoopStripMinePass Registry;;
  initializeSerializeSmallTasksPass Registry.

Definition LLVMInitializeTapirOpts (R : LLVMPassRegistryRef) : M unit :=
  initializeTapirOpts (unwrap R).

Definition LLVMAddLowerTapirToTargetPass (PM : LLVMPassManagerRef) : M unit :=
  P ← createLowerTapirToTargetPass; add (unwrap PM) P.

Definition LLVMAddLoopSpawningPass (PM : LLVMPassManagerRef) : M unit :=
  P ← createLoopSpawningTIPass; add (unwrap PM) P.

(** The C bindings of the file that take a pass manager: the entry points
    through which a driver outside the library can extend a pipeline. *)
Inductive CAddBinding :=
| AddLowerTapirToTargetPass
| AddLoopSpawningPass.

Definition callAddBinding (b : CAddBinding) : LLVMPassManagerRef -> M unit :=
  match b with
  | AddLowerTapirToTargetPass => LLVMAddLowerTapirToTargetPass
  | AddLoopSpawningPass => LLVMAddLoopSpawningPass
  end.

(** The pass each binding hands to [add]: the [createXPass] it calls. *)
Definition passAddedBy (b : CAddBinding) : PassID :=
  match b with
  | AddLowerTapirToTargetPass => LowerTapirToTarget
  | AddLoopSpawningPass => LoopSpawningTI
  end.

(** [f] is an entry point that adds exactly one instance of pass [P]:
    on every live pass manager a call succeeds, allocates one pass
    object, an instance of [P], and extends the manager's pipeline by
    that one instance. *)
Definition addsOneInstance (f : LLVMPassManagerRef -> M unit) (P : PassID) : Prop :=
  forall (PM : LLVMPassManagerRef) (h : Heap) (pipeline : list addr),
    managers h !! unwrap PM = Some pipeline ->
    exists (h' : Heap) (p : addr),
      f PM h = Some (tt, h') /\
      managers h' = <[unwrap PM := pipeline ++ [p]]> (managers h) /\
      passObjects h !! p = None /\
      passObjects h' = <[p := P]> (passObjects h).

(** The passes [initializeTapirOpts] names, in the order of its calls. *)
Definition libraryPasses : list PassID :=
  [LoopSpawning; LoopSpawningTI; LowerTapirToTarget; AnalyzeTapir; TaskSimplify;
   DRFScopedNoAliasWrapperPass; LoopStripMine; SerializeSmallTasks].

(** The passes recorded in the registry at [Registry]. *)
Definition registered (Registry : addr) (h : Heap) : gset PassID :=
  default ∅ (registries h !! Registry).

(** The store a computation leaves behind, when it has one. *)
Definition finalHeap {A} (m : M A) (h : Heap) : option Heap :=
  snd <$> m h.

(** A store with one empty registry at address 1 and one pass manager
    with an empty pipeline at address 2. *)
Definition heap0 : Heap := mkHeap {[1%positive := ∅]} {[2%positive := []]} ∅.

(** A driver building a pipeline: the calls [bs] to the pass-manager
    bindings, one after the other, on the same pass manager. *)
Fixpoint callAddBindings (bs : list CAddBinding) (PM : LLVMPassManagerRef) : M unit :=
  match bs with
  | [] => mret tt
  | b :: rest => callAddBinding b PM;; callAddBindings rest PM
  end.

(** Pass managers own their passes: every entry of a pipeline is a live
    pass instance, no instance stands twice in a pipeline, and none stands
    in the pipelines of two managers. *)
Definition OwnsItsPasses (h : Heap) : Prop :=
  (forall (PM : addr) (pipeline : list addr) (p : addr),
     managers h !! PM = Some pipeline -> p ∈ pipeline ->
     is_Some (passObjects h !! p)) /\
  (forall (PM : addr) (pipeline : list addr),
     managers h !! PM = Some pipeline -> NoDup pipeline) /\
  (forall (PM1 PM2 : addr) (l1 l2 : list addr) (p : addr),
     PM1 <> PM2 -> managers h !! PM1 = Some l1 -> managers h !! PM2 = Some l2 ->
     p ∈ l1 -> p ∉ l2).

End TapirOpts.

(** * Part II: the task pipeline, from its specification

    The passes that [initializeTapirOpts] registers are defined in files of
    their own.  This part models, from the specification of the pipeline,
    the pieces its stated invariants are about: the task-region constructs
    of the IR, Task Analysis, the Spawn Sites, the Lowering to Target pass
    and the driver that runs a pipeline. *)

Module TaskPipeline.

Definition RegionId := nat.
Definition Value := nat.

(** Modelled from the spec: an ordinary IR instruction, of which the
    pipeline only needs the value it defines and the values it uses
    (section 4.1, "the set of values that cross the detach/reattach
    boundary"). *)
Record Instr := mkInstr {
  defines : option Value;
  uses : list Value
}.

(** Modelled from the spec: the Parallel Runtime ABI Descriptor (sections 3
    and 6), reduced to the two runtime entry points lowering calls: the
    spawn call and the join primitive. *)
Record AbiDescriptor := mkAbi {
  spawnCall : string;
  joinCall : string
}.

(** Modelled from the spec: the Task Region Model (sections 2 and 3).  The
    body of a function in structured form: [Detach r task] is the detach
    of region [r] with its detached sub-graph [task], followed by its
    continuation; [Reattach r] is a reattach point of region [r];
    [Sync] is a sync point.  Regions "nest or sequence".  [Call] is a
    call into the parallel runtime, which only lowering emits. *)
Inductive Stmt :=
| Inst (i : Instr)
| Call (callee : string)
| Skip
| Seq (s1 s2 : Stmt)
| Branch (c : Value) (s1 s2 : Stmt)
| Detach (r : RegionId) (task : Stmt)
| Reattach (r : RegionId)
| Sync.

(** Modelled from the spec: the postcondition of lowering counts "Task
    Region constructs" (section 4.7); these are the detach, reattach and
    sync nodes of a body. *)
Fixpoint taskConstructs (s : Stmt) : nat :=
  match s with
  | Detach _ task => S (taskConstructs task)
  | Reattach _ => 1
  | Sync => 1
  | Seq s1 s2 | Branch _ s1 s2 => taskConstructs s1 + taskConstructs s2
  | Inst _ | Call _ | Skip => 0
  end.

(** The regions of a body, innermost first (a region after the regions
    nested in it). *)
Fixpoint regionsInnermostFirst (s : Stmt) : list RegionId :=
  match s with
  | Detach r task => regionsInnermostFirst task ++ [r]
  | Seq s1 s2 | Branch _ s1 s2 =>
      regionsInnermostFirst s1 ++ regionsInnermostFirst s2
  | Inst _ | Call _ | Skip | Reattach _ | Sync => []
  end.

(** The reattach points that stand directly in a body, not inside a
    region nested in it. *)
Fixpoint levelReattaches (s : Stmt) : list RegionId :=
  match s with
  | Reattach r => [r]
  | Seq s1 s2 | Branch _ s1 s2 => levelReattaches s1 ++ levelReattaches s2
  | Inst _ | Call _ | Skip | Detach _ _ | Sync => []
  end.

(** ** Proper nesting, declaratively *)

(** [Within e s e' s']: the statement [s'] occurs in [s], where [s] stands
    directly in region [e] ([None]: in no region) and [s'] directly in
    region [e']. *)
Inductive Within : option RegionId -> Stmt -> option RegionId -> Stmt -> Prop :=
| Within_here e s : Within e s e s
| Within_Seq_l e s1 s2 e' s' : Within e s1 e' s' -> Within e (Seq s1 s2) e' s'
| Within_Seq_r e s1 s2 e' s' : Within e s2 e' s' -> Within e (Seq s1 s2) e' s'
| Within_Branch_l e c s1 s2 e' s' :
    Within e s1 e' s' -> Within e (Branch c s1 s2) e' s'
| Within_Branch_r e c s1 s2 e' s' :
    Within e s2 e' s' -> Within e (Branch c s1 s2) e' s'
| Within_Detach e r task e' s' :
    Within (Some r) task e' s' -> Within e (Detach r task) e' s'.

(** Modelled from the spec: the invariant of a Task Region (section 3),
    "every reattach point is dominated by exactly one detach point and
    every detach is matched by at least one reattach reachable without
    crossing another unmatched detach".  A reattach is without a
    structurally valid match when it does not stand directly in the region
    it names; a detach, when no reattach of its region stands directly in
    its task. *)
Definition Unmatched (e : option RegionId) (s : Stmt) : Prop :=
  match s with
  | Reattach r => e <> Some r
  | Detach r task => r ∉ levelReattaches task
  | _ => False
  end.

Definition MalformedNesting (s : Stmt) : Prop :=
  exists (e' : option RegionId) (s' : Stmt), Within None s e' s' /\ Unmatched e' s'.

Definition WellFormed (s : Stmt) : Prop := ~ MalformedNesting s.

(** ** Outcomes and the pipeline state *)

(** Modelled from the spec: the error kinds of section 7.  A diagnostic is
    a structural/input error "surfaced to the caller with the offending
    region's location"; a fault is an internal-consistency violation,
    "treated as fatal". *)
Inductive Diagnostic :=
| UnmatchedDetach (r : RegionId)
| UnmatchedReattach (r : RegionId).

Inductive Fault :=
| DoubleLowering (r : RegionId)
| VerifierRejection.

Inductive Outcome (A : Type) :=
| Ok (a : A)
| Error (d : Diagnostic)
| Fatal (f : Fault).
Arguments Ok {A} a.
Arguments Error {A} d.
Arguments Fatal {A} f.

(** Modelled from the spec: the Spawn Site's state flag (section 9, "an
    explicit per-Spawn-Site state flag (tagged variant: {Pending,
    Lowered})"). *)
Inductive SiteState := Pending | Lowered.

#[global] Instance SiteState_eq_dec : EqDecision SiteState.
Proof. solve_decision. Defined.

(** Modelled from the spec: what a pipeline run owns (section 5, "an
    in-memory IR owned exclusively by the compilation unit being
    processed"): the IR, mutated in place by one pass at a time; the
    Spawn Sites, one per region, keyed by the region they refer to; and
    the record of every false-to-true transition of a "lowered" marker,
    in the order they happened. *)
Record PipelineState := mkState {
  ir : Stmt;
  sites : gmap RegionId SiteState;
  transitions : list RegionId
}.

(** A site no pass has touched is pending. *)
Definition siteState (st : PipelineState) (r : RegionId) : SiteState :=
  default Pending (sites st !! r).

Definition initialState (s : Stmt) : PipelineState := mkState s ∅ [].

Definition Pipeline (A : Type) : Type := PipelineState -> Outcome A * PipelineState.

#[global] Instance P_ret : MRet Pipeline := fun A a st => (Ok a, st).

#[global] Instance P_bind : MBind Pipeline := fun A B k m st =>
  match m st with
  | (Ok a, st') => k a st'
  | (Error d, st') => (Error d, st')
  | (Fatal f, st') => (Fatal f, st')
  end.

Definition getIR : Pipeline Stmt := fun st => (Ok (ir st), st).

Definition setIR (s : Stmt) : Pipeline unit := fun st =>
  (Ok tt, mkState s (sites st) (transitions st)).

Definition report {A} (d : Diagnostic) : Pipeline A := fun st => (Error d, st).

Definition fatal {A} (f : Fault) : Pipeline A := fun st => (Fatal f, st).

(** A caller can recover from a reported error; a fault passes through
    every handler. *)
Definition catch {A} (m : Pipeline A) (handler : Diagnostic -> Pipeline A) : Pipeline A := fun st =>
  match m st with
  | (Error d, st') => handler d st'
  | other => other
  end.

(** ** Task Analysis *)

(** Modelled from the spec: the per-region results of Task Analysis
    (section 4.1): the escaping values and the simple/complex
    classification, with the number of reattach points of the region. *)
Record RegionInfo := mkRegionInfo {
  region : RegionId;
  reattachPoints : nat;
  simple : bool;
  escaping : list Value
}.

(** Modelled from the spec: the Task Tree (section 3), "the nesting
    relationship of Task Regions within a function, forming a forest". *)
#[warnings="-register-all"]
Inductive TaskTree :=
| TaskNode (info : RegionInfo) (children : list TaskTree).

Fixpoint definedIn (s : Stmt) : list Value :=
  match s with
  | Inst i => option_list (defines i)
  | Seq s1 s2 | Branch _ s1 s2 => definedIn s1 ++ definedIn s2
  | Detach _ task => definedIn task
  | Call _ | Skip | Reattach _ | Sync => []
  end.

Fixpoint usedIn (s : Stmt) : list Value :=
  match s with
  | Inst i => uses i
  | Seq s1 s2 => usedIn s1 ++ usedIn s2
  | Branch c s1 s2 => c :: usedIn s1 ++ usedIn s2
  | Detach _ task => usedIn task
  | Call _ | Skip | Reattach _ | Sync => []
  end.

(** "Simple": straight-line, no nested spawn. *)
Fixpoint isSimple (s : Stmt) : bool :=
  match s with
  | Seq s1 s2 => isSimple s1 && isSimple s2
  | Branch _ _ _ | Detach _ _ => false
  | Inst _ | Call _ | Skip | Reattach _ | Sync => true
  end.

Definition regionInfo (r : RegionId) (task : Stmt) : RegionInfo :=
  mkRegionInfo r (length (levelReattaches task)) (isSimple task)
    (filter (fun v => v ∉ definedIn task) (usedIn task)).

Fixpoint taskForest (s : Stmt) : list TaskTree :=
  match s with
  | Detach r task => [TaskNode (regionInfo r task) (taskForest task)]
  | Seq s1 s2 | Branch _ s1 s2 => taskForest s1 ++ taskForest s2
  | Inst _ | Call _ | Skip | Reattach _ | Sync => []
  end.

(** Modelled from the spec: the structural check of Task Analysis
    (section 4.1).  The first detach or reattach without a valid match
    that the analysis meets in [s], which stands directly in region [e]. *)
Fixpoint firstMalformed (e : option RegionId) (s : Stmt) : option Diagnostic :=
  match s with
  | Reattach r => if decide (e = Some r) then None else Some (UnmatchedReattach r)
  | Detach r task =>
      if decide (r ∈ levelReattaches task)
      then firstMalformed (Some r) task
      else Some (UnmatchedDetach r)
  | Seq s1 s2 | Branch _ s1 s2 =>
      match firstMalformed e s1 with
      | Some d => Some d
      | None => firstMalformed e s2
      end
  | Inst _ | Call _ | Skip | Sync => None
  end.

(** The construct a diagnostic points at. *)
Definition diagnoses (d : Diagnostic) (s : Stmt) : Prop :=
  match d with
  | UnmatchedDetach r => exists task : Stmt, s = Detach r task
  | UnmatchedReattach r => s = Reattach r
  end.

(** Modelled from the spec: Task Analysis (section 4.1).  "Given a
    function's IR, produce a Task Tree plus, per region, ..."; "fails
    (reports a diagnosable error, does not crash) if a detach/reattach is
    found without a structurally valid match"; "no side effects; pure
    query pass". *)
Definition TaskAnalysis : Pipeline (list TaskTree) := fun st =>
  match firstMalformed None (ir st) with
  | Some d => report d st
  | None => (Ok (taskForest (ir st)), st)
  end.

(** ** Lowering to Target *)

(** Modelled from the spec: the check-and-set of a Spawn Site's flag
    (sections 4.7 and 9).  "Each Spawn Site is marked lowered exactly once;
    attempting to lower an already-lowered site is a programming-error-class
    fault (fatal, not recoverable)". *)
Definition lowerSite (r : RegionId) : Pipeline unit := fun st =>
  match siteState st r with
  | Lowered => (Fatal (DoubleLowering r), st)
  | Pending =>
      (Ok tt, mkState (ir st) (<[r := Lowered]> (sites st)) (transitions st ++ [r]))
  end.

(** Modelled from the spec: what a detach and a sync become (section
    4.7).  With a runtime ABI configured they become calls into it; with
    none, "purely sequential control flow". *)
Definition lowerDetach (abi : option AbiDescriptor) (task' : Stmt) : Stmt :=
  match abi with
  | Some d => Seq (Call (spawnCall d)) task'
  | None => task'
  end.

Definition lowerSync (abi : option AbiDescriptor) : Stmt :=
  match abi with
  | Some d => Call (joinCall d)
  | None => Skip
  end.

(** Modelled from the spec: the rewriting of Lowering to Target (section
    4.7).  "For every remaining Task Region, in an order consistent with
    the Task Tree (innermost first ...), rewrites the detach/reattach/sync
    constructs into concrete control flow plus calls into the configured
    Parallel Runtime ABI (or into purely sequential control flow if no
    ABI is configured)". *)
Fixpoint lower (abi : option AbiDescriptor) (s : Stmt) : Pipeline Stmt :=
  match s with
  | Detach r task =>
      task' ← lower abi task;
      lowerSite r;;
      mret (lowerDetach abi task')
  | Reattach _ => mret Skip
  | Sync => mret (lowerSync abi)
  | Seq s1 s2 =>
      s1' ← lower abi s1;
      s2' ← lower abi s2;
      mret (Seq s1' s2')
  | Branch c s1 s2 =>
      s1' ← lower abi s1;
      s2' ← lower abi s2;
      mret (Branch c s1' s2')
  | Inst _ | Call _ | Skip => mret s
  end.

(** Modelled from the spec: the Lowering to Target pass (sections 4.7 and
    6).  It consumes the Task Tree, so Task Analysis runs first; "after
    Lowering to Target, the core hands the module to an external verifier;
    a verifier failure is treated as an internal pipeline bug (fatal)".
    The verifier is the host's, a black box [verifier]. *)
Definition LoweringToTarget (verifier : Stmt -> bool) (abi : option AbiDescriptor)
    : Pipeline unit :=
  TaskAnalysis;;
  s ← getIR;
  s' ← lower abi s;
  if verifier s' then setIR s' else fatal VerifierRejection.

(** ** The pipeline driver *)

(** Modelled from the spec: a pass upstream of lowering, as the driver
    sees it (sections 2 and 5): a rewrite of the IR that consumes the
    current Task Tree. *)
Record Pass := mkPass {
  transform : list TaskTree -> Stmt -> Stmt
}.

(** A pass that keeps a properly nested IR properly nested. *)
Definition PreservesWellFormed (p : Pass) : Prop :=
  forall (forest : list TaskTree) (s : Stmt),
    WellFormed s -> WellFormed (transform p forest s).

(** Modelled from the spec: the host scheduler's run of a pipeline
    (section 2, "Control flow"): the upstream passes in the configured
    order, Task Analysis re-run before each of them, and Lowering to
    Target last.  A reported error or a fault "aborts the current
    compilation unit's pipeline run" (section 5). *)
Fixpoint runUpstream (passes : list Pass) : Pipeline unit :=
  match passes with
  | [] => mret tt
  | p :: rest =>
      forest ← TaskAnalysis;
      s ← getIR;
      setIR (transform p forest s);;
      runUpstream rest
  end.

Definition runPipeline (verifier : Stmt -> bool) (abi : option AbiDescriptor)
    (passes : list Pass) : Pipeline unit :=
  runUpstream passes;;
  LoweringToTarget verifier abi.

(** The flags and the record of transitions agree: a marker is set exactly
    when its one transition is on record. *)
Definition Consistent (st : PipelineState) : Prop :=
  NoDup (transitions st) /\
  forall r : RegionId, siteState st r = Lowered <-> r ∈ transitions st.

(** ** Example inputs *)

(** A region with one instruction and its reattach, then a sync. *)
Definition spawnThenSync : Stmt :=
  Seq (Detach 1 (Seq (Inst (mkInstr (Some 7) [3])) (Reattach 1))) Sync.

(** A detach whose task never reattaches, then a reattach in no region. *)
Definition badNesting : Stmt :=
  Seq (Detach 1 (Inst (mkInstr None []))) (Reattach 2).

(** An upstream pass that would delete the whole body. *)
Definition eraseAll : Pass := mkPass (fun _ _ => Skip).

Definition acceptAll (s : Stmt) : bool := true.

End TaskPipeline.

(** * Properties of the registration surface *)

Module TapirOptsFacts.
Import TapirOpts.

(** Unfolding one step of a sequence in the store monad. *)
Lemma bind_Some {A B} (m : M A) (k : A -> M B) (h h' : Heap) (a : A) :
  m h = Some (a, h') -> (m ≫= k) h = k a h'.
Proof. intros Hm. unfold mbind, M_bind. by rewrite Hm. Qed.

Lemma bind_None {A B} (m : M A) (k : A -> M B) (h : Heap) :
  m h = None -> (m ≫= k) h = None.
Proof. intros Hm. unfold mbind, M_bind. by rewrite Hm. Qed.

Lemma registerPass_live (P : PassID) (Registry : addr) (h : Heap) (reg : gset PassID) :
  registries h !! Registry = Some reg ->
  registerPass P Registry h =
    Some (tt, mkHeap (<[Registry := {[P]} ∪ reg]> (registries h))
                     (managers h) (passObjects h)).
Proof. intros Hreg. unfold registerPass. by rewrite Hreg. Qed.

Lemma registerPass_dead (P : PassID) (Registry : addr) (h : Heap) :
  registries h !! Registry = None -> registerPass P Registry h = None.
Proof. intros Hreg. unfold registerPass. by rewrite Hreg. Qed.

(** The eight registrations of [initializeTapirOpts], folded into one
    update of the registry object. *)
Lemma initializeTapirOpts_live (Registry : addr) (h : Heap) (reg : gset PassID) :
  registries h !! Registry = Some reg ->
  initializeTapirOpts Registry h =
    Some (tt, mkHeap
      (<[Registry :=
           {[SerializeSmallTasks]} ∪ ({[LoopStripMine]} ∪
           ({[DRFScopedNoAliasWrapperPass]} ∪ ({[TaskSimplify]} ∪
           ({[AnalyzeTapir]} ∪ ({[LowerTapirToTarget]} ∪
           ({[LoopSpawningTI]} ∪ ({[LoopSpawning]} ∪ reg)))))))]>
         (registries h))
      (managers h) (passObjects h)).
Proof.
  intros Hreg. unfold initializeTapirOpts.
  unfold initializeLoopSpawningPass, initializeLoopSpawningTIPass,
    initializeLowerTapirToTargetPass, initializeAnalyzeTapirPass,
    initializeTaskSimplifyPass, initializeDRFScopedNoAliasWrapperPassPass,
    initializeLoopStripMinePass, initializeSerializeSmallTasksPass.
  erewrite bind_Some; [| by apply registerPass_live].
  do 6 (erewrite bind_Some;
        [| apply registerPass_live; cbn; apply lookup_insert_eq];
        cbn [registries managers passObjects]; rewrite insert_insert_eq).
  erewrite registerPass_live; [| cbn; apply lookup_insert_eq].
  cbn [registries managers passObjects]. by rewrite insert_insert_eq.
Qed.

Lemma initializeTapirOpts_dead (Registry : addr) (h : Heap) :
  registries h !! Registry = None -> initializeTapirOpts Registry h = None.
Proof.
  intros Hreg. unfold initializeTapirOpts, initializeLoopSpawningPass.
  apply bind_None. by apply registerPass_dead.
Qed.

Lemma heap0_registry : registries heap0 !! 1%positive = Some ∅.
Proof. apply lookup_singleton_eq. Qed.

Lemma heap0_manager : managers heap0 !! 2%positive = Some [].
Proof. apply lookup_singleton_eq. Qed.

Lemma newPass_fresh (h : Heap) :
  passObjects h !! fresh (dom (passObjects h)) = None.
Proof. apply not_elem_of_dom, is_fresh. Qed.

(** Either binding allocates one instance of the pass it names and
    appends it to the pipeline of the manager it is given. *)
Lemma callAddBinding_live (b : CAddBinding) (PM : LLVMPassManagerRef) (h : Heap)
    (pipeline : list addr) :
  managers h !! unwrap PM = Some pipeline ->
  callAddBinding b PM h =
    Some (tt, mkHeap (registries h)
                (<[unwrap PM := pipeline ++ [fresh (dom (passObjects h))]]> (managers h))
                (<[fresh (dom (passObjects h)) := passAddedBy b]> (passObjects h))).
Proof.
  intros Hpm.
  destruct b; cbn [callAddBinding passAddedBy];
    unfold LLVMAddLowerTapirToTargetPass, LLVMAddLoopSpawningPass,
      createLowerTapirToTargetPass, createLoopSpawningTIPass;
    (erewrite bind_Some; [| reflexivity]);
    unfold add; cbn [registries managers passObjects]; by rewrite Hpm.
Qed.

Lemma callAddBinding_dead (b : CAddBinding) (PM : LLVMPassManagerRef) (h : Heap) :
  managers h !! unwrap PM = None -> callAddBinding b PM h = None.
Proof.
  intros Hpm.
  destruct b; cbn [callAddBinding];
    unfold LLVMAddLowerTapirToTargetPass, LLVMAddLoopSpawningPass,
      createLowerTapirToTargetPass, createLoopSpawningTIPass;
    (erewrite bind_Some; [| reflexivity]);
    unfold add; cbn [registries managers passObjects]; by rewrite Hpm.
Qed.

Lemma callAddBinding_addsOneInstance (b : CAddBinding) :
  addsOneInstance (callAddBinding b) (passAddedBy b).
Proof.
  intros PM h pipeline Hpm.
  eexists _, (fresh (dom (passObjects h))).
  split; [by apply callAddBinding_live |].
  cbn [registries managers passObjects].
  split; [done |]. split; [apply newPass_fresh | done].
Qed.

(** A binding adds instances of no pass but the one it names. *)
Lemma addsOneInstance_passAddedBy (b : CAddBinding) (P : PassID) :
  addsOneInstance (callAddBinding b) P -> P = passAddedBy b.
Proof.
  intros Hadd.
  destruct (Hadd (LLVMOpaquePassManager 2%positive) heap0 [] heap0_manager)
    as (h' & p & Hrun & _ & _ & Hobj).
  rewrite (callAddBinding_live b (LLVMOpaquePassManager 2%positive) heap0 []
             heap0_manager) in Hrun.
  injection Hrun as <-.
  apply (f_equal (fun objs : gmap addr PassID => objs !! p)) in Hobj.
  rewrite lookup_insert_eq in Hobj. cbn [passObjects] in Hobj.
  apply lookup_insert_Some in Hobj as [[_ Hp] | [_ Hp]]; [done |].
  by rewrite lookup_empty in Hp.
Qed.

(** ** The library initialiser *)

(** Claim C3.  On a live registry object [initializeTapirOpts] returns, and
    the registry it was passed then records every pass of the pipeline:
    Task Analysis/Reporting ([AnalyzeTapir]), Task Simplification, both
    Loop Spawning strategies, Loop Strip-Mining, DRF Scoped No-Alias
    Annotation, Small-Task Serialization and Lowering to Target. *)
Theorem initializeTapirOpts_registers_every_pass (Registry : addr) (h : Heap) :
  is_Some (registries h !! Registry) ->
  exists h' : Heap,
    initializeTapirOpts Registry h = Some (tt, h') /\
    AnalyzeTapir ∈ registered Registry h' /\
    TaskSimplify ∈ registered Registry h' /\
    LoopSpawning ∈ registered Registry h' /\
    LoopSpawningTI ∈ registered Registry h' /\
    LoopStripMine ∈ registered Registry h' /\
    DRFScopedNoAliasWrapperPass ∈ registered Registry h' /\
    SerializeSmallTasks ∈ registered Registry h' /\
    LowerTapirToTarget ∈ registered Registry h' /\
    (forall P : PassID, P ∈ registered Registry h').
Proof.
  intros [reg Hreg]. eexists. split; [by apply initializeTapirOpts_live |].
  unfold registered. cbn [registries]. rewrite lookup_insert_eq. cbn [default].
  split_and!; try set_solver. intros []; set_solver.
Qed.

Lemma initializeTapirOpts_registers_every_pass_witness :
  exists h' : Heap,
    initializeTapirOpts 1%positive heap0 = Some (tt, h') /\
    AnalyzeTapir ∈ registered 1%positive h' /\
    TaskSimplify ∈ registered 1%positive h' /\
    LoopSpawning ∈ registered 1%positive h' /\
    LoopSpawningTI ∈ registered 1%positive h' /\
    LoopStripMine ∈ registered 1%positive h' /\
    DRFScopedNoAliasWrapperPass ∈ registered 1%positive h' /\
    SerializeSmallTasks ∈ registered 1%positive h' /\
    LowerTapirToTarget ∈ registered 1%positive h' /\
    (forall P : PassID, P ∈ registered 1%positive h').
Proof.
  apply (initializeTapirOpts_registers_every_pass 1%positive heap0).
  exists ∅. exact heap0_registry.
Defined.

(** Claim C10.  The C wrapper [LLVMInitializeTapirOpts] behaves as
    [initializeTapirOpts] on the unwrapped registry: the two computations
    agree on every store (both undefined, or both leaving the same store),
    so the passes they record in that registry, and in any other, are the
    same sets. *)
Theorem LLVMInitializeTapirOpts_as_initializeTapirOpts
    (R : LLVMPassRegistryRef) (h : Heap) :
  LLVMInitializeTapirOpts R h = initializeTapirOpts (unwrap R) h /\
  (forall Registry : addr,
     registered Registry <$> finalHeap (LLVMInitializeTapirOpts R) h =
     registered Registry <$> finalHeap (initializeTapirOpts (unwrap R)) h) /\
  (registered (unwrap R) <$> finalHeap (LLVMInitializeTapirOpts R) h =
     if decide (is_Some (registries h !! unwrap R))
     then Some (list_to_set libraryPasses) else None).
Proof.
  split; [reflexivity |]. split; [reflexivity |].
  unfold LLVMInitializeTapirOpts, finalHeap.
  destruct (registries h !! unwrap R) as [reg |] eqn:Hreg.
  - rewrite (initializeTapirOpts_live _ _ _ Hreg). rewrite decide_True by eauto.
    cbn. f_equal. unfold registered. cbn [registries].
    rewrite lookup_insert_eq. cbn [default].
    apply set_eq. unfold libraryPasses. intros []; set_solver.
  - rewrite (initializeTapirOpts_dead _ _ Hreg). rewrite decide_False; [done |].
    by intros [].
Qed.

(** ** The pass-manager bindings *)

(** Claim C9.  On a live pass manager [LLVMAddLoopSpawningPass] appends
    one new pass instance to the pipeline, an instance of the
    target-informed [LoopSpawningTI]; it creates no instance of the direct
    [LoopSpawning] pass, although [initializeTapirOpts] registers both
    variants. *)
Theorem LLVMAddLoopSpawningPass_adds_LoopSpawningTI
    (PM : LLVMPassManagerRef) (h : Heap) (pipeline : list addr) :
  managers h !! unwrap PM = Some pipeline ->
  (exists (h' : Heap) (p : addr),
     LLVMAddLoopSpawningPass PM h = Some (tt, h') /\
     managers h' !! unwrap PM = Some (pipeline ++ [p]) /\
     passObjects h !! p = None /\
     passObjects h' !! p = Some LoopSpawningTI /\
     (forall q : addr, passObjects h' !! q = Some LoopSpawning ->
                       passObjects h !! q = Some LoopSpawning)) /\
  LoopSpawningTI <> LoopSpawning /\
  (forall (Registry : addr) (hr : Heap),
     is_Some (registries hr !! Registry) ->
     exists hr' : Heap,
       initializeTapirOpts Registry hr = Some (tt, hr') /\
       LoopSpawning ∈ registered Registry hr' /\
       LoopSpawningTI ∈ registered Registry hr').
Proof.
  intros Hpm. split; [| split; [done |]].
  - eexists _, (fresh (dom (passObjects h))).
    split; [exact (callAddBinding_live AddLoopSpawningPass PM h pipeline Hpm) |].
    cbn [registries managers passObjects passAddedBy].
    split; [apply lookup_insert_eq |]. split; [apply newPass_fresh |].
    split; [apply lookup_insert_eq |].
    intros q Hq. apply lookup_insert_Some in Hq as [[_ Hq] | [_ Hq]]; done.
  - intros Registry hr [reg Hreg]. eexists.
    split; [by apply initializeTapirOpts_live |].
    unfold registered. cbn [registries]. rewrite lookup_insert_eq. cbn [default].
    set_solver.
Qed.

Lemma LLVMAddLoopSpawningPass_adds_LoopSpawningTI_witness :
  exists (h' : Heap) (p : addr),
    LLVMAddLoopSpawningPass (LLVMOpaquePassManager 2%positive) heap0 = Some (tt, h') /\
    managers h' !! 2%positive = Some [p] /\
    passObjects h' !! p = Some LoopSpawningTI.
Proof.
  destruct (LLVMAddLoopSpawningPass_adds_LoopSpawningTI
              (LLVMOpaquePassManager 2%positive) heap0 [] heap0_manager)
    as [(h' & p & Hrun & Hpipe & _ & Hobj & _) _].
  exists h', p. split; [exact Hrun |]. split; [exact Hpipe | exact Hobj].
Defined.

(** Claim C5 as stated fails: no C binding of the library adds a Task
    Simplification pass to a pass manager (nor any of the five other
    passes without a binding). *)
Lemma no_binding_adds_TaskSimplify :
  ~ exists b : CAddBinding, addsOneInstance (callAddBinding b) TaskSimplify.
Proof.
  intros [b Hadd]. apply addsOneInstance_passAddedBy in Hadd. by destruct b.
Qed.

(** Claim C5, amended.  The library has a C-linkage entry point for two
    passes only, Lowering to Target and the target-informed Loop
    Spawning.  Each call to either binding on a live pass manager
    allocates exactly one pass object, an instance of the pass the
    binding names, and appends that one instance to the pipeline of the
    given manager, leaving every other manager and every registry as it
    was. *)
Theorem C_bindings_add_one_instance
    (b : CAddBinding) (PM : LLVMPassManagerRef) (h : Heap) (pipeline : list addr) :
  managers h !! unwrap PM = Some pipeline ->
  (exists (h' : Heap) (p : addr),
     callAddBinding b PM h = Some (tt, h') /\
     managers h' = <[unwrap PM := pipeline ++ [p]]> (managers h) /\
     passObjects h !! p = None /\
     passObjects h' = <[p := passAddedBy b]> (passObjects h) /\
     registries h' = registries h) /\
  (forall P : PassID,
     (exists b' : CAddBinding, addsOneInstance (callAddBinding b') P) <->
     P = LowerTapirToTarget \/ P = LoopSpawningTI).
Proof.
  intros Hpm. split.
  - eexists _, (fresh (dom (passObjects h))).
    split; [by apply callAddBinding_live |].
    cbn [registries managers passObjects].
    split; [done |]. split; [apply newPass_fresh | done].
  - intros P. split.
    + intros [b' Hadd]. apply addsOneInstance_passAddedBy in Hadd.
      destruct b'; subst P; cbn; auto.
    + intros [-> | ->].
      * exists AddLowerTapirToTargetPass.
        apply (callAddBinding_addsOneInstance AddLowerTapirToTargetPass).
      * exists AddLoopSpawningPass.
        apply (callAddBinding_addsOneInstance AddLoopSpawningPass).
Qed.

Lemma C_bindings_add_one_instance_witness :
  exists (h' : Heap) (p : addr),
    LLVMAddLowerTapirToTargetPass (LLVMOpaquePassManager 2%positive) heap0 =
      Some (tt, h') /\
    managers h' = <[2%positive := [p]]> (managers heap0) /\
    passObjects h' = <[p := LowerTapirToTarget]> (passObjects heap0).
Proof.
  destruct (C_bindings_add_one_instance AddLowerTapirToTargetPass
              (LLVMOpaquePassManager 2%positive) heap0 [] heap0_manager)
    as [(h' & p & Hrun & Hpipe & _ & Hobj & _) _].
  exists h', p. split; [exact Hrun |]. split; [exact Hpipe | exact Hobj].
Defined.

End TapirOptsFacts.

(** * Properties of the task pipeline *)

Module TaskPipelineFacts.
Import TaskPipeline.

(** ** Task Analysis finds exactly the malformed nestings *)

Lemma firstMalformed_complete (e : option RegionId) (s : Stmt)
    (e' : option RegionId) (s' : Stmt) :
  Within e s e' s' -> Unmatched e' s' -> is_Some (firstMalformed e s).
Proof.
  intros Hin Hun. induction Hin as
    [e s | e s1 s2 e' s' _ IH | e s1 s2 e' s' _ IH
     | e c s1 s2 e' s' _ IH | e c s1 s2 e' s' _ IH | e r task e' s' _ IH].
  - destruct s; try done; cbn in *; case_decide; done.
  - cbn. destruct (IH Hun) as [d ->]. eauto.
  - cbn. destruct (firstMalformed e s1); eauto.
  - cbn. destruct (IH Hun) as [d ->]. eauto.
  - cbn. destruct (firstMalformed e s1); eauto.
  - cbn. case_decide; eauto.
Qed.

Lemma firstMalformed_sound (e : option RegionId) (s : Stmt) (d : Diagnostic) :
  firstMalformed e s = Some d ->
  exists (e' : option RegionId) (s' : Stmt),
    Within e s e' s' /\ Unmatched e' s' /\ diagnoses d s'.
Proof.
  revert e. induction s as
    [i | callee | | s1 IH1 s2 IH2 | c s1 IH1 s2 IH2 | r task IH | r |];
    intros e Hd; cbn in Hd; try done.
  - destruct (firstMalformed e s1) as [d1 |] eqn:H1.
    + injection Hd as ->. destruct (IH1 _ H1) as (e' & s' & Hin & Hun & Hd).
      exists e', s'. eauto using Within.
    + destruct (IH2 _ Hd) as (e' & s' & Hin & Hun & Hd').
      exists e', s'. eauto using Within.
  - destruct (firstMalformed e s1) as [d1 |] eqn:H1.
    + injection Hd as ->. destruct (IH1 _ H1) as (e' & s' & Hin & Hun & Hd).
      exists e', s'. eauto using Within.
    + destruct (IH2 _ Hd) as (e' & s' & Hin & Hun & Hd').
      exists e', s'. eauto using Within.
  - case_decide as Hr.
    + destruct (IH _ Hd) as (e' & s' & Hin & Hun & Hd').
      exists e', s'. eauto using Within.
    + injection Hd as <-. exists e, (Detach r task).
      split; [constructor |]. split; [done |]. cbn. eauto.
  - case_decide as Hr; [done |]. injection Hd as <-.
    exists e, (Reattach r). split; [constructor |]. done.
Qed.

Lemma WellFormed_firstMalformed (s : Stmt) :
  WellFormed s <-> firstMalformed None s = None.
Proof.
  split.
  - intros Hwf. destruct (firstMalformed None s) as [d |] eqn:Hd; [| done].
    destruct (firstMalformed_sound _ _ _ Hd) as (e' & s' & Hin & Hun & _).
    destruct Hwf. by exists e', s'.
  - intros Hnone (e' & s' & Hin & Hun).
    destruct (firstMalformed_complete _ _ _ _ Hin Hun) as [d Hd]. congruence.
Qed.

Lemma TaskAnalysis_WellFormed (st : PipelineState) :
  WellFormed (ir st) -> TaskAnalysis st = (Ok (taskForest (ir st)), st).
Proof.
  intros Hwf. unfold TaskAnalysis.
  by rewrite (proj1 (WellFormed_firstMalformed _) Hwf).
Qed.

Lemma TaskAnalysis_Malformed (st : PipelineState) :
  MalformedNesting (ir st) ->
  exists d : Diagnostic,
    TaskAnalysis st = (Error d, st) /\
    exists (e' : option RegionId) (s' : Stmt),
      Within None (ir st) e' s' /\ Unmatched e' s' /\ diagnoses d s'.
Proof.
  intros (e' & s' & Hin & Hun).
  destruct (firstMalformed_complete _ _ _ _ Hin Hun) as [d Hd].
  exists d. split; [unfold TaskAnalysis; by rewrite Hd |].
  by apply firstMalformed_sound.
Qed.

(** ** Running computations of the pipeline monad *)

Lemma bind_run {A B} (m : Pipeline A) (k : A -> Pipeline B) (st : PipelineState) :
  (m ≫= k) st =
    match m st with
    | (Ok a, st') => k a st'
    | (Error d, st') => (Error d, st')
    | (Fatal f, st') => (Fatal f, st')
    end.
Proof. reflexivity. Qed.

Lemma ret_run {A} (a : A) (st : PipelineState) : (mret a : Pipeline A) st = (Ok a, st).
Proof. reflexivity. Qed.

(** Split the outcome of the first computation of a sequence. *)
Ltac step_in H :=
  rewrite bind_run in H;
  let res := fresh "res" in
  let st1 := fresh "st" in
  let Hrun := fresh "Hrun" in
  match type of H with
  | context [match ?m ?st with _ => _ end] =>
      destruct (m st) as [res st1] eqn:Hrun; destruct res
  end.

(** ** The Spawn Site flag *)

Lemma siteState_insert (st : PipelineState) (s : Stmt) (tr : list RegionId)
    (r r' : RegionId) :
  siteState (mkState s (<[r := Lowered]> (sites st)) tr) r' =
    if decide (r = r') then Lowered else siteState st r'.
Proof.
  unfold siteState. cbn [sites]. rewrite lookup_insert. by case_decide.
Qed.

Lemma lowerSite_Pending (r : RegionId) (st : PipelineState) :
  siteState st r = Pending ->
  lowerSite r st =
    (Ok tt, mkState (ir st) (<[r := Lowered]> (sites st)) (transitions st ++ [r])).
Proof. intros Hr. unfold lowerSite. by rewrite Hr. Qed.

Lemma lowerSite_Lowered (r : RegionId) (st : PipelineState) :
  siteState st r = Lowered -> lowerSite r st = (Fatal (DoubleLowering r), st).
Proof. intros Hr. unfold lowerSite. by rewrite Hr. Qed.

Lemma Consistent_mark (r : RegionId) (st : PipelineState) :
  siteState st r = Pending -> Consistent st ->
  Consistent (mkState (ir st) (<[r := Lowered]> (sites st)) (transitions st ++ [r])).
Proof.
  intros Hr [Hnd Hiff]. split; cbn [transitions].
  - apply NoDup_app. split; [done |]. split; [| apply NoDup_singleton].
    intros r' Hin ->%list_elem_of_singleton. apply Hiff in Hin. congruence.
  - intros r'. rewrite siteState_insert, elem_of_app, list_elem_of_singleton.
    case_decide; [subst; tauto |]. rewrite Hiff.
    split; [tauto | intros [Hin | ->]; done].
Qed.

Lemma lowerSite_run (r : RegionId) (st : PipelineState) (res : Outcome unit)
    (st' : PipelineState) :
  lowerSite r st = (res, st') ->
  ir st' = ir st /\
  (Consistent st -> Consistent st') /\
  (forall r' : RegionId, r' <> r -> siteState st' r' = siteState st r') /\
  match res with
  | Ok _ => transitions st' = transitions st ++ [r] /\ siteState st r = Pending
  | Error _ => False
  | Fatal f => f = DoubleLowering r /\ st' = st /\ siteState st r = Lowered
  end.
Proof.
  destruct (siteState st r) eqn:Hr.
  - rewrite lowerSite_Pending by done. intros [= <- <-]. cbn [ir transitions].
    split; [done |]. split; [by apply Consistent_mark |]. split; [| done].
    intros r' Hne. rewrite siteState_insert. by rewrite decide_False.
  - rewrite lowerSite_Lowered by done. intros [= <- <-]. done.
Qed.

(** ** The rewriting of Lowering to Target *)

Lemma taskConstructs_lowerDetach (abi : option AbiDescriptor) (task' : Stmt) :
  taskConstructs (lowerDetach abi task') = taskConstructs task'.
Proof. by destruct abi. Qed.

Lemma taskConstructs_lowerSync (abi : option AbiDescriptor) :
  taskConstructs (lowerSync abi) = 0.
Proof. by destruct abi. Qed.

(** What a run of [lower] does to the state, whatever its outcome: the IR
    is not written, the flags stay consistent with the record, sites of
    other regions are not touched, no error is reported, a fault is a
    double lowering, and on success the regions of the body were marked
    innermost first and no task construct is left. *)
Lemma lower_run (abi : option AbiDescriptor) (s : Stmt) (st : PipelineState)
    (res : Outcome Stmt) (st' : PipelineState) :
  lower abi s st = (res, st') ->
  ir st' = ir st /\
  (Consistent st -> Consistent st') /\
  (forall r : RegionId,
     r ∉ regionsInnermostFirst s -> siteState st' r = siteState st r) /\
  match res with
  | Ok s' =>
      transitions st' = transitions st ++ regionsInnermostFirst s /\
      taskConstructs s' = 0
  | Error _ => False
  | Fatal f => exists r : RegionId, f = DoubleLowering r /\ r ∈ regionsInnermostFirst s
  end.
Proof.
  revert st res st'. induction s as
    [i | callee | | s1 IH1 s2 IH2 | c s1 IH1 s2 IH2 | r task IH | r |];
    intros st res st' Hlow; cbn [lower] in Hlow;
    try (rewrite ret_run in Hlow; injection Hlow as <- <-;
         cbn [regionsInnermostFirst taskConstructs];
         rewrite ?app_nil_r, ?taskConstructs_lowerSync; done).
  - (* Seq *)
    step_in Hlow.
    + destruct (IH1 _ _ _ Hrun) as (Hir1 & Hc1 & Hfr1 & Htr1 & Hk1).
      step_in Hlow.
      * destruct (IH2 _ _ _ Hrun0) as (Hir2 & Hc2 & Hfr2 & Htr2 & Hk2).
        rewrite ret_run in Hlow. injection Hlow as <- <-.
        cbn [regionsInnermostFirst taskConstructs].
        split; [congruence |]. split; [tauto |]. split.
        { intros r [Hr1 Hr2]%not_elem_of_app. rewrite Hfr2, Hfr1; done. }
        split; [| lia]. rewrite Htr2, Htr1. by rewrite app_assoc.
      * destruct (IH2 _ _ _ Hrun0) as (_ & _ & _ & []).
      * destruct (IH2 _ _ _ Hrun0) as (Hir2 & Hc2 & Hfr2 & r & -> & Hr).
        injection Hlow as <- <-. cbn [regionsInnermostFirst].
        split; [congruence |]. split; [tauto |]. split.
        { intros r' [Hr1 Hr2]%not_elem_of_app. rewrite Hfr2, Hfr1; done. }
        exists r. split; [done |]. apply elem_of_app. by right.
    + destruct (IH1 _ _ _ Hrun) as (_ & _ & _ & []).
    + destruct (IH1 _ _ _ Hrun) as (Hir1 & Hc1 & Hfr1 & r & -> & Hr).
      injection Hlow as <- <-. cbn [regionsInnermostFirst].
      split; [done |]. split; [done |]. split.
      { intros r' [Hr1 Hr2]%not_elem_of_app. by apply Hfr1. }
      exists r. split; [done |]. apply elem_of_app. by left.
  - (* Branch *)
    step_in Hlow.
    + destruct (IH1 _ _ _ Hrun) as (Hir1 & Hc1 & Hfr1 & Htr1 & Hk1).
      step_in Hlow.
      * destruct (IH2 _ _ _ Hrun0) as (Hir2 & Hc2 & Hfr2 & Htr2 & Hk2).
        rewrite ret_run in Hlow. injection Hlow as <- <-.
        cbn [regionsInnermostFirst taskConstructs].
        split; [congruence |]. split; [tauto |]. split.
        { intros r [Hr1 Hr2]%not_elem_of_app. rewrite Hfr2, Hfr1; done. }
        split; [| lia]. rewrite Htr2, Htr1. by rewrite app_assoc.
      * destruct (IH2 _ _ _ Hrun0) as (_ & _ & _ & []).
      * destruct (IH2 _ _ _ Hrun0) as (Hir2 & Hc2 & Hfr2 & r & -> & Hr).
        injection Hlow as <- <-. cbn [regionsInnermostFirst].
        split; [congruence |]. split; [tauto |]. split.
        { intros r' [Hr1 Hr2]%not_elem_of_app. rewrite Hfr2, Hfr1; done. }
        exists r. split; [done |]. apply elem_of_app. by right.
    + destruct (IH1 _ _ _ Hrun) as (_ & _ & _ & []).
    + destruct (IH1 _ _ _ Hrun) as (Hir1 & Hc1 & Hfr1 & r & -> & Hr).
      injection Hlow as <- <-. cbn [regionsInnermostFirst].
      split; [done |]. split; [done |]. split.
      { intros r' [Hr1 Hr2]%not_elem_of_app. by apply Hfr1. }
      exists r. split; [done |]. apply elem_of_app. by left.
  - (* Detach *)
    step_in Hlow.
    + destruct (IH _ _ _ Hrun) as (Hir1 & Hc1 & Hfr1 & Htr1 & Hk1).
      step_in Hlow.
      * destruct (lowerSite_run _ _ _ _ Hrun0) as (Hir2 & Hc2 & Hfr2 & Htr2 & Hp).
        rewrite ret_run in Hlow. injection Hlow as <- <-.
        cbn [regionsInnermostFirst taskConstructs].
        split; [congruence |]. split; [tauto |]. split.
        { intros r' [Hr1 Hr2]%not_elem_of_app.
          rewrite Hfr2, Hfr1; [done | done |].
          intros ->. apply Hr2. by apply list_elem_of_singleton. }
        rewrite taskConstructs_lowerDetach. split; [| done].
        rewrite Htr2, Htr1. by rewrite app_assoc.
      * destruct (lowerSite_run _ _ _ _ Hrun0) as (_ & _ & _ & []).
      * destruct (lowerSite_run _ _ _ _ Hrun0) as (Hir2 & Hc2 & Hfr2 & -> & -> & Hl).
        injection Hlow as <- <-. cbn [regionsInnermostFirst].
        split; [done |]. split; [done |]. split.
        { intros r' [Hr1 Hr2]%not_elem_of_app. by apply Hfr1. }
        exists r. split; [done |]. apply elem_of_app. right.
        by apply list_elem_of_singleton.
    + destruct (IH _ _ _ Hrun) as (_ & _ & _ & []).
    + destruct (IH _ _ _ Hrun) as (Hir1 & Hc1 & Hfr1 & r' & -> & Hr).
      injection Hlow as <- <-. cbn [regionsInnermostFirst].
      split; [done |]. split; [done |]. split.
      { intros r'' [Hr1 Hr2]%not_elem_of_app. by apply Hfr1. }
      exists r'. split; [done |]. apply elem_of_app. by left.
Qed.

(** [lower] succeeds when the regions of the body are pairwise distinct
    and none of their sites has been lowered. *)
Lemma lower_total (abi : option AbiDescriptor) (s : Stmt) (st : PipelineState) :
  NoDup (regionsInnermostFirst s) ->
  (forall r : RegionId, r ∈ regionsInnermostFirst s -> siteState st r = Pending) ->
  exists (s' : Stmt) (st' : PipelineState), lower abi s st = (Ok s', st').
Proof.
  revert st. induction s as
    [i | callee | | s1 IH1 s2 IH2 | c s1 IH1 s2 IH2 | r task IH | r |];
    intros st Hnd Hpend; cbn [lower regionsInnermostFirst] in *;
    try (eexists _, _; by rewrite ret_run).
  - apply NoDup_app in Hnd as (Hnd1 & Hdisj & Hnd2).
    destruct (IH1 st Hnd1) as (s1' & st1 & Hrun1).
    { intros r Hr. apply Hpend, elem_of_app. by left. }
    destruct (lower_run _ _ _ _ _ Hrun1) as (_ & _ & Hfr1 & _).
    destruct (IH2 st1 Hnd2) as (s2' & st2 & Hrun2).
    { intros r Hr. rewrite Hfr1.
      - apply Hpend, elem_of_app. by right.
      - intros Hr1. by apply (Hdisj r). }
    eexists _, _. rewrite bind_run, Hrun1, bind_run, Hrun2. by rewrite ret_run.
  - apply NoDup_app in Hnd as (Hnd1 & Hdisj & Hnd2).
    destruct (IH1 st Hnd1) as (s1' & st1 & Hrun1).
    { intros r Hr. apply Hpend, elem_of_app. by left. }
    destruct (lower_run _ _ _ _ _ Hrun1) as (_ & _ & Hfr1 & _).
    destruct (IH2 st1 Hnd2) as (s2' & st2 & Hrun2).
    { intros r Hr. rewrite Hfr1.
      - apply Hpend, elem_of_app. by right.
      - intros Hr1. by apply (Hdisj r). }
    eexists _, _. rewrite bind_run, Hrun1, bind_run, Hrun2. by rewrite ret_run.
  - apply NoDup_app in Hnd as (Hnd1 & Hdisj & _).
    destruct (IH st Hnd1) as (task' & st1 & Hrun1).
    { intros r' Hr. apply Hpend, elem_of_app. by left. }
    destruct (lower_run _ _ _ _ _ Hrun1) as (_ & _ & Hfr1 & _).
    assert (Hr : siteState st1 r = Pending).
    { rewrite Hfr1.
      - apply Hpend, elem_of_app. right. by apply list_elem_of_singleton.
      - intros Hr1. apply (Hdisj r Hr1). by apply list_elem_of_singleton. }
    eexists _, _. rewrite bind_run, Hrun1, bind_run.
    rewrite (lowerSite_Pending _ _ Hr). by rewrite ret_run.
Qed.


(** ** The passes and the driver *)

Lemma LoweringToTarget_run (verifier : Stmt -> bool) (abi : option AbiDescriptor)
    (st : PipelineState) :
  LoweringToTarget verifier abi st =
    match firstMalformed None (ir st) with
    | Some d => (Error d, st)
    | None =>
        match lower abi (ir st) st with
        | (Ok s', st1) =>
            if verifier s'
            then (Ok tt, mkState s' (sites st1) (transitions st1))
            else (Fatal VerifierRejection, st1)
        | (Error d, st1) => (Error d, st1)
        | (Fatal f, st1) => (Fatal f, st1)
        end
    end.
Proof.
  unfold LoweringToTarget. rewrite bind_run. unfold TaskAnalysis.
  destruct (firstMalformed None (ir st)); [done |].
  rewrite bind_run. unfold getIR. rewrite bind_run.
  destruct (lower abi (ir st) st) as [[s' | d | f] st1]; [| done | done].
  by destruct (verifier s').
Qed.


Lemma runUpstream_Malformed (passes : list Pass) (st : PipelineState) (d : Diagnostic) :
  firstMalformed None (ir st) = Some d ->
  runUpstream passes st = (Ok tt, st) \/ runUpstream passes st = (Error d, st).
Proof.
  intros Hd. destruct passes as [| p rest]; [by left | right].
  cbn [runUpstream]. rewrite bind_run. unfold TaskAnalysis. by rewrite Hd.
Qed.






Lemma siteState_initialState (s : Stmt) (r : RegionId) :
  siteState (initialState s) r = Pending.
Proof. unfold siteState. cbn. by rewrite lookup_empty. Qed.

(** ** Task Analysis and malformed nesting *)

(** On a properly nested IR, passes that keep it so report no error. *)
Lemma runUpstream_WellFormed (passes : list Pass) (st : PipelineState) :
  WellFormed (ir st) ->
  (forall p : Pass, p ∈ passes -> PreservesWellFormed p) ->
  exists st1 : PipelineState,
    runUpstream passes st = (Ok tt, st1) /\ WellFormed (ir st1).
Proof.
  revert st. induction passes as [| p rest IH]; intros st Hwf Hpres.
  - exists st. split; [reflexivity | done].
  - cbn [runUpstream]. rewrite bind_run, (TaskAnalysis_WellFormed _ Hwf).
    rewrite bind_run. unfold getIR. rewrite bind_run. unfold setIR.
    apply IH.
    + cbn [ir]. apply Hpres; [apply list_elem_of_here | done].
    + intros q Hq. apply Hpres. by apply list_elem_of_further.
Qed.

Lemma MalformedNesting_dec (s : Stmt) : MalformedNesting s \/ WellFormed s.
Proof.
  destruct (firstMalformed None s) as [d |] eqn:Hd.
  - left. destruct (firstMalformed_sound _ _ _ Hd) as (e' & s' & Hin & Hun & _).
    by exists e', s'.
  - right. by apply WellFormed_firstMalformed.
Qed.

(** Claim C6.  When the IR holds a detach or a reattach without a
    structurally valid match, Task Analysis returns an error to its caller
    (an error the caller can handle, not a fault) that points at such a
    construct, and leaves the state, the IR included, as it found it; and
    a pipeline run on that IR stops with that error before any pass has
    written the IR, whatever the passes, the ABI and the verifier.
    Conversely, with passes that keep the IR properly nested, a run that
    ends in an error was given a malformed IR and has written nothing. *)
Theorem malformed_nesting_stops_the_pipeline
    (verifier : Stmt -> bool) (abi : option AbiDescriptor) (passes : list Pass)
    (st : PipelineState) :
  MalformedNesting (ir st) ->
  (exists d : Diagnostic,
     TaskAnalysis st = (Error d, st) /\
     (exists (e' : option RegionId) (s' : Stmt),
        Within None (ir st) e' s' /\ Unmatched e' s' /\ diagnoses d s') /\
     (forall handler : Diagnostic -> Pipeline (list TaskTree),
        catch TaskAnalysis handler st = handler d st) /\
     runPipeline verifier abi passes st = (Error d, st)) /\
  (forall (st0 st' : PipelineState) (d : Diagnostic),
     (forall p : Pass, p ∈ passes -> PreservesWellFormed p) ->
     runPipeline verifier abi passes st0 = (Error d, st') ->
     MalformedNesting (ir st0) /\ st' = st0).
Proof.
  assert (Hstop : forall st1 : PipelineState,
            MalformedNesting (ir st1) ->
            exists d : Diagnostic,
              TaskAnalysis st1 = (Error d, st1) /\
              (exists (e' : option RegionId) (s' : Stmt),
                 Within None (ir st1) e' s' /\ Unmatched e' s' /\ diagnoses d s') /\
              runPipeline verifier abi passes st1 = (Error d, st1)).
  { intros st1 Hbad.
    destruct (TaskAnalysis_Malformed st1 Hbad) as (d & Hrun & Hdiag).
    exists d. split; [done |]. split; [done |].
    assert (Hd : firstMalformed None (ir st1) = Some d).
    { unfold TaskAnalysis in Hrun.
      destruct (firstMalformed None (ir st1));
        [by injection Hrun as -> | discriminate]. }
    unfold runPipeline. rewrite bind_run.
    destruct (runUpstream_Malformed passes st1 d Hd) as [-> | ->]; [| done].
    rewrite LoweringToTarget_run. by rewrite Hd. }
  intros Hbad. split.
  - destruct (Hstop st Hbad) as (d & Hrun & Hdiag & Hpipe).
    exists d. split; [done |]. split; [done |]. split; [| done].
    intros handler. unfold catch. by rewrite Hrun.
  - intros st0 st' d Hpres Hpipe.
    destruct (MalformedNesting_dec (ir st0)) as [Hbad0 | Hwf0].
    + split; [done |]. destruct (Hstop st0 Hbad0) as (d0 & _ & _ & Hpipe0).
      congruence.
    + exfalso.
      destruct (runUpstream_WellFormed passes st0 Hwf0 Hpres) as (st1 & Hup & Hwf1).
      unfold runPipeline in Hpipe. rewrite bind_run, Hup in Hpipe.
      rewrite LoweringToTarget_run in Hpipe.
      rewrite (proj1 (WellFormed_firstMalformed _) Hwf1) in Hpipe.
      destruct (lower abi (ir st1) st1) as [res2 st2] eqn:Hlow.
      destruct (lower_run _ _ _ _ _ Hlow) as (_ & _ & _ & Hres).
      destruct res2 as [s' | d2 | f]; [| done | done].
      by destruct (verifier s').
Qed.

Lemma malformed_nesting_stops_the_pipeline_witness :
  exists d : Diagnostic,
    runPipeline acceptAll None [eraseAll] (initialState badNesting) =
      (Error d, initialState badNesting).
Proof.
  destruct (malformed_nesting_stops_the_pipeline acceptAll None [eraseAll]
              (initialState badNesting)) as [(d & _ & _ & _ & Hrun) _].
  - exists None, (Reattach 2). split; [| done].
    apply Within_Seq_r, Within_here.
  - exists d. exact Hrun.
Defined.

(** ** Lowering to Target *)




(** A run of the pass that completes leaves no task construct and has
    had the verifier accept the IR it leaves. *)
Lemma LoweringToTarget_Ok (verifier : Stmt -> bool) (abi : option AbiDescriptor)
    (st st' : PipelineState) :
  LoweringToTarget verifier abi st = (Ok tt, st') ->
  taskConstructs (ir st') = 0 /\ verifier (ir st') = true.
Proof.
  intros Hrun. rewrite LoweringToTarget_run in Hrun.
  destruct (firstMalformed None (ir st)); [done |].
  destruct (lower abi (ir st) st) as [res1 st1] eqn:Hlow.
  destruct (lower_run _ _ _ _ _ Hlow) as (_ & _ & _ & Hres).
  destruct res1 as [s' | d | f]; [| done | done].
  destruct Hres as [_ Hzero].
  destruct (verifier s') eqn:Hv; [| done]. by injection Hrun as <-.
Qed.

(** Claim C2.  For every well-formed input module, after the Lowering to
    Target pass completes, zero Task Region constructs (detach, reattach,
    sync) remain in the IR, and the verifier has accepted that IR.  The
    pass does complete on a well-formed module whose regions are pairwise
    distinct and unlowered, provided the verifier accepts the rewritten
    IR, which has no task construct; it ends in a fault, and only then,
    when the verifier rejects it.  The same postcondition holds after any
    pipeline run that completes. *)
Theorem lowering_leaves_no_task_construct
    (verifier : Stmt -> bool) (abi : option AbiDescriptor)
    (st st' : PipelineState) :
  WellFormed (ir st) ->
  LoweringToTarget verifier abi st = (Ok tt, st') ->
  (taskConstructs (ir st') = 0 /\ verifier (ir st') = true) /\
  (forall st2 : PipelineState,
     WellFormed (ir st2) ->
     NoDup (regionsInnermostFirst (ir st2)) ->
     (forall r : RegionId,
        r ∈ regionsInnermostFirst (ir st2) -> siteState st2 r = Pending) ->
     exists (s' : Stmt) (st1 : PipelineState),
       taskConstructs s' = 0 /\
       LoweringToTarget verifier abi st2 =
         if verifier s'
         then (Ok tt, mkState s' (sites st1) (transitions st1))
         else (Fatal VerifierRejection, st1)) /\
  (forall (passes : list Pass) (st0 st3 : PipelineState),
     runPipeline verifier abi passes st0 = (Ok tt, st3) ->
     taskConstructs (ir st3) = 0 /\ verifier (ir st3) = true).
Proof.
  intros _ Hrun. split; [by eapply LoweringToTarget_Ok |]. split.
  - intros st2 Hwf Hnd Hpend.
    destruct (lower_total abi _ st2 Hnd Hpend) as (s' & st1 & Hlow).
    destruct (lower_run _ _ _ _ _ Hlow) as (_ & _ & _ & _ & Hzero).
    exists s', st1. split; [done |].
    rewrite LoweringToTarget_run.
    rewrite (proj1 (WellFormed_firstMalformed _) Hwf). by rewrite Hlow.
  - intros passes st0 st3 Hpipe. unfold runPipeline in Hpipe.
    rewrite bind_run in Hpipe.
    destruct (runUpstream passes st0) as [[[] | d | f] st1]; [| done | done].
    by eapply LoweringToTarget_Ok.
Qed.

Lemma lowering_leaves_no_task_construct_witness :
  exists st' : PipelineState,
    LoweringToTarget acceptAll (Some (mkAbi "spawn" "join"))
      (initialState spawnThenSync) = (Ok tt, st') /\
    taskConstructs (ir st') = 0 /\ acceptAll (ir st') = true.
Proof.
  eexists. split; [reflexivity |].
  refine (proj1 (lowering_leaves_no_task_construct acceptAll
            (Some (mkAbi "spawn" "join")) (initialState spawnThenSync) _ _ _)).
  - apply WellFormed_firstMalformed. reflexivity.
  - reflexivity.
Defined.

End TaskPipelineFacts.

(** * Further properties of the registration surface *)

Module TapirOptsCoverage.
Import TapirOpts TapirOptsFacts.

(** ** Initialisation *)

(** [initializeTapirOpts] writes the registry it is given and nothing
    else: the pass managers, the pass instances and every other registry
    are as before, no registry is created or destroyed, and whatever the
    registry recorded it still records. *)
Theorem initializeTapirOpts_frame (Registry : addr) (h h' : Heap) :
  initializeTapirOpts Registry h = Some (tt, h') ->
  managers h' = managers h /\
  passObjects h' = passObjects h /\
  (forall R' : addr, R' <> Registry -> registries h' !! R' = registries h !! R') /\
  dom (registries h') = dom (registries h) /\
  registered Registry h ⊆ registered Registry h'.
Proof.
  intros Hrun. destruct (registries h !! Registry) as [reg |] eqn:Hreg.
  - rewrite (initializeTapirOpts_live _ _ _ Hreg) in Hrun. injection Hrun as <-.
    cbn [registries managers passObjects].
    split; [done |]. split; [done |]. split; [| split].
    + intros R' Hne. by rewrite lookup_insert_ne.
    + apply dom_insert_lookup_L. by exists reg.
    + unfold registered. cbn [registries]. rewrite Hreg, lookup_insert_eq.
      cbn [default]. apply elem_of_subseteq. intros P HP.
      unfold id in *. rewrite !elem_of_union. tauto.
  - by rewrite (initializeTapirOpts_dead _ _ Hreg) in Hrun.
Qed.

Lemma initializeTapirOpts_frame_witness :
  exists h' : Heap,
    initializeTapirOpts 1%positive heap0 = Some (tt, h') /\
    managers h' = managers heap0 /\ passObjects h' = passObjects heap0.
Proof.
  destruct (initializeTapirOpts 1%positive heap0) as [[[] h'] |] eqn:Hrun.
  - destruct (initializeTapirOpts_frame 1%positive heap0 h' Hrun)
      as (Hm & Ho & _).
    exists h'. split; [reflexivity |]. split; [exact Hm | exact Ho].
  - rewrite (initializeTapirOpts_live _ _ _ heap0_registry) in Hrun. discriminate.
Defined.

(** ** Building a pipeline *)

(** What a sequence of binding calls does to a live pass manager. *)
Lemma callAddBindings_live (bs : list CAddBinding) (PM : LLVMPassManagerRef)
    (h : Heap) (pipeline : list addr) :
  managers h !! unwrap PM = Some pipeline ->
  exists (h' : Heap) (ps : list addr),
    callAddBindings bs PM h = Some (tt, h') /\
    managers h' = <[unwrap PM := pipeline ++ ps]> (managers h) /\
    registries h' = registries h /\
    Forall2 (fun b p => passObjects h !! p = None /\
                        passObjects h' !! p = Some (passAddedBy b)) bs ps /\
    NoDup ps /\
    (forall (q : addr) (P : PassID),
       passObjects h !! q = Some P -> passObjects h' !! q = Some P).
Proof.
  revert h pipeline. induction bs as [| b rest IH]; intros h pipeline Hpm.
  - exists h, []. cbn [callAddBindings]. split; [reflexivity |].
    rewrite app_nil_r, insert_id by done.
    split; [done |]. split; [done |]. split; [constructor |].
    split; [apply NoDup_nil_2 | done].
  - cbn [callAddBindings].
    pose proof (callAddBinding_live b PM h pipeline Hpm) as Hb.
    pose proof (newPass_fresh h) as Hp.
    destruct (IH (mkHeap (registries h)
                    (<[unwrap PM := pipeline ++ [fresh (dom (passObjects h))]]>
                       (managers h))
                    (<[fresh (dom (passObjects h)) := passAddedBy b]> (passObjects h)))
                 (pipeline ++ [fresh (dom (passObjects h))]))
      as (h' & ps & Hrun & Hm & Hr & Hall & Hnd & Hold).
    { cbn [managers]. apply lookup_insert_eq. }
    cbn [registries managers passObjects] in Hm, Hr, Hall, Hold.
    exists h', (fresh (dom (passObjects h)) :: ps).
    rewrite (bind_Some _ _ _ _ _ Hb).
    split; [exact Hrun |]. split; [| split; [done |]].
    { rewrite Hm, insert_insert_eq. by rewrite <- app_assoc. }
    split; [| split].
    + constructor.
      * split; [done |]. apply Hold, lookup_insert_eq.
      * eapply Forall2_impl; [exact Hall |].
        intros b' q [Hq Hq']. split; [| done].
        apply lookup_insert_None in Hq. tauto.
    + apply NoDup_cons. split; [| done]. intros Hin.
      apply list_elem_of_lookup in Hin as [i Hi].
      destruct (Forall2_lookup_r _ _ _ _ _ Hall Hi) as (b' & _ & Hq & _).
      by rewrite lookup_insert_eq in Hq.
    + intros q P Hq. apply Hold.
      rewrite lookup_insert_ne; [done |]. intros <-. congruence.
Qed.

(** Any sequence of calls to the pass-manager bindings on a live pass
    manager succeeds and extends its pipeline by one pass instance per
    call, in the order of the calls: each is a new instance of the pass
    its binding names, no two of them are the same instance, and the
    pipeline the manager had stays in front.  Other pass managers and
    the registries are untouched; an empty sequence changes nothing. *)
Theorem callAddBindings_append_in_order (bs : list CAddBinding)
    (PM : LLVMPassManagerRef) (h : Heap) (pipeline : list addr) :
  managers h !! unwrap PM = Some pipeline ->
  exists (h' : Heap) (ps : list addr),
    callAddBindings bs PM h = Some (tt, h') /\
    managers h' !! unwrap PM = Some (pipeline ++ ps) /\
    length ps = length bs /\
    Forall2 (fun b p => passObjects h !! p = None /\
                        passObjects h' !! p = Some (passAddedBy b)) bs ps /\
    NoDup ps /\
    (forall PM' : addr, PM' <> unwrap PM -> managers h' !! PM' = managers h !! PM') /\
    registries h' = registries h /\
    (bs = [] -> h' = h).
Proof.
  intros Hpm.
  destruct (callAddBindings_live bs PM h pipeline Hpm)
    as (h' & ps & Hrun & Hm & Hr & Hall & Hnd & _).
  exists h', ps. split; [done |]. split; [by rewrite Hm, lookup_insert_eq |].
  split; [symmetry; by eapply Forall2_length |]. split; [done |].
  split; [done |]. split; [| split; [done |]].
  - intros PM' Hne. by rewrite Hm, lookup_insert_ne.
  - intros ->. cbn in Hrun. by injection Hrun as <-.
Qed.

Lemma callAddBindings_append_in_order_witness :
  exists (h' : Heap) (p1 p2 : addr),
    callAddBindings [AddLoopSpawningPass; AddLowerTapirToTargetPass]
      (LLVMOpaquePassManager 2%positive) heap0 = Some (tt, h') /\
    managers h' !! 2%positive = Some [p1; p2] /\
    p1 <> p2 /\
    passObjects h' !! p1 = Some LoopSpawningTI /\
    passObjects h' !! p2 = Some LowerTapirToTarget.
Proof.
  destruct (callAddBindings_append_in_order
              [AddLoopSpawningPass; AddLowerTapirToTargetPass]
              (LLVMOpaquePassManager 2%positive) heap0 [] heap0_manager)
    as (h' & ps & Hrun & Hm & Hlen & Hall & Hnd & _).
  destruct ps as [| p1 [| p2 [| p3 ps]]]; try discriminate Hlen.
  exists h', p1, p2. split; [exact Hrun |]. split; [exact Hm |].
  apply Forall2_cons in Hall as [[_ H1] Hall].
  apply Forall2_cons in Hall as [[_ H2] _].
  split; [| split; [exact H1 | exact H2]].
  apply NoDup_cons in Hnd as [Hnd _]. intros ->. apply Hnd, list_elem_of_here.
Defined.

(** ** Ownership of pass instances *)

Lemma callAddBinding_owns (b : CAddBinding) (PM : LLVMPassManagerRef) (h h' : Heap) :
  OwnsItsPasses h -> callAddBinding b PM h = Some (tt, h') -> OwnsItsPasses h'.
Proof.
  intros (Hlive & Hnd & Hdisj) Hrun.
  destruct (managers h !! unwrap PM) as [pipeline |] eqn:Hpm;
    [| by rewrite (callAddBinding_dead _ _ _ Hpm) in Hrun].
  rewrite (callAddBinding_live _ _ _ _ Hpm) in Hrun. injection Hrun as <-.
  pose proof (newPass_fresh h) as Hp.
  set (p := fresh (dom (passObjects h))) in *.
  assert (Hkeep : forall q : addr,
            is_Some (passObjects h !! q) ->
            is_Some (<[p := passAddedBy b]> (passObjects h) !! q)).
  { intros q [P Hq]. exists P. rewrite lookup_insert_ne; [done |].
    intros <-. congruence. }
  assert (Hnew : forall (PM' : addr) (l : list addr),
            managers h !! PM' = Some l -> p ∉ l).
  { intros PM' l Hl Hin. destruct (Hlive _ _ _ Hl Hin) as [P HP]. congruence. }
  assert (Hsplit : forall (PM' : addr) (l : list addr),
            <[unwrap PM := pipeline ++ [p]]> (managers h) !! PM' = Some l ->
            (PM' = unwrap PM /\ l = pipeline ++ [p]) \/
            (PM' <> unwrap PM /\ managers h !! PM' = Some l)).
  { intros PM' l Hl.
    apply lookup_insert_Some in Hl as [[<- <-] | [Hne Hl]]; [by left | right].
    split; [by intros -> | done]. }
  split; [| split]; cbn [managers passObjects].
  - intros PM' l q Hl Hq. destruct (Hsplit _ _ Hl) as [[-> ->] | [_ Hl']].
    + apply elem_of_app in Hq as [Hq | ->%list_elem_of_singleton].
      * apply Hkeep. by eapply Hlive.
      * rewrite lookup_insert_eq. eauto.
    + apply Hkeep. by eapply Hlive.
  - intros PM' l Hl. destruct (Hsplit _ _ Hl) as [[-> ->] | [_ Hl']].
    + apply NoDup_app. split; [by eapply Hnd |]. split; [| apply NoDup_singleton].
      intros q Hq ->%list_elem_of_singleton. by eapply Hnew.
    + by eapply Hnd.
  - intros PM1 PM2 l1 l2 q Hne Hl1 Hl2 Hq1 Hq2.
    destruct (Hsplit _ _ Hl1) as [[-> ->] | [Hne1 Hl1']];
      destruct (Hsplit _ _ Hl2) as [[-> ->] | [Hne2 Hl2']]; [done | | |].
    + apply elem_of_app in Hq1 as [Hq1 | ->%list_elem_of_singleton].
      * by eapply (Hdisj (unwrap PM) PM2).
      * by eapply Hnew.
    + apply elem_of_app in Hq2 as [Hq2 | ->%list_elem_of_singleton].
      * by eapply (Hdisj PM1 (unwrap PM)).
      * by eapply Hnew.
    + by eapply (Hdisj PM1 PM2).
Qed.

Lemma heap0_owns : OwnsItsPasses heap0.
Proof.
  assert (Hempty : forall (PM : addr) (l : list addr),
            managers heap0 !! PM = Some l -> l = []).
  { intros PM l Hl. cbn [heap0 managers] in Hl.
    by apply lookup_singleton_Some in Hl as [_ <-]. }
  split; [| split].
  - intros PM l p Hl Hp. rewrite (Hempty _ _ Hl) in Hp. by apply elem_of_nil in Hp.
  - intros PM l Hl. rewrite (Hempty _ _ Hl). apply NoDup_nil_2.
  - intros PM1 PM2 l1 l2 p _ Hl1 _ Hp. rewrite (Hempty _ _ Hl1) in Hp.
    by apply elem_of_nil in Hp.
Qed.

(** A store in which pass managers own their passes stays so under the
    library's entry points: after a call to a pass-manager binding, after
    any sequence of such calls, and after initialisation, every pipeline
    entry is a live pass instance, and no instance stands twice in a
    pipeline or in the pipelines of two managers. *)
Theorem OwnsItsPasses_preserved (h : Heap) :
  OwnsItsPasses h ->
  (forall (b : CAddBinding) (PM : LLVMPassManagerRef) (h' : Heap),
     callAddBinding b PM h = Some (tt, h') -> OwnsItsPasses h') /\
  (forall (bs : list CAddBinding) (PM : LLVMPassManagerRef) (h' : Heap),
     callAddBindings bs PM h = Some (tt, h') -> OwnsItsPasses h') /\
  (forall (R : LLVMPassRegistryRef) (h' : Heap),
     LLVMInitializeTapirOpts R h = Some (tt, h') -> OwnsItsPasses h').
Proof.
  intros Hown. split; [| split].
  - intros b PM h' Hrun. by eapply callAddBinding_owns.
  - intros bs PM. revert h Hown. induction bs as [| b rest IH]; intros h Hown h' Hrun.
    + cbn in Hrun. by injection Hrun as <-.
    + cbn [callAddBindings] in Hrun.
      destruct (callAddBinding b PM h) as [[[] h1] |] eqn:Hb.
      * rewrite (bind_Some _ _ _ _ _ Hb) in Hrun.
        eapply IH; [| exact Hrun]. by eapply callAddBinding_owns.
      * by rewrite (bind_None _ _ _ Hb) in Hrun.
  - intros R h' Hrun. unfold LLVMInitializeTapirOpts in Hrun.
    destruct (registries h !! unwrap R) as [reg |] eqn:Hreg.
    + rewrite (initializeTapirOpts_live _ _ _ Hreg) in Hrun.
      by injection Hrun as <-.
    + by rewrite (initializeTapirOpts_dead _ _ Hreg) in Hrun.
Qed.

Lemma OwnsItsPasses_preserved_witness :
  exists h' : Heap,
    callAddBindings [AddLowerTapirToTargetPass; AddLoopSpawningPass]
      (LLVMOpaquePassManager 2%positive) heap0 = Some (tt, h') /\
    OwnsItsPasses h'.
Proof.
  destruct (callAddBindings_live [AddLowerTapirToTargetPass; AddLoopSpawningPass]
              (LLVMOpaquePassManager 2%positive) heap0 [] heap0_manager)
    as (h' & ps & Hrun & _).
  exists h'. split; [exact Hrun |].
  exact (proj1 (proj2 (OwnsItsPasses_preserved heap0 heap0_owns)) _ _ _ Hrun).
Defined.

End TapirOptsCoverage.
